(** * Santa: the kernel <-> userspace protocol of [SNTKernelCommon.h]

    A shallow embedding of [Source/common/SNTKernelCommon.h]: the driver
    method ids, the action tags, the response-validity macro, the size of
    the vnode-id string buffer and the message record that travels down the
    IODataQueue, together with the codec and the authorization session that
    the protocol description builds on top of them. *)

From Stdlib Require Import ZArith List Lia Bool Strings.String.
From coqutil Require Import Byte Word.LittleEndianList.
From stdpp Require Import gmap list.
Import ListNotations.
Local Open Scope Z_scope.

(* ===================================================================== *)
(** * Part I: definitions                                                *)
(* ===================================================================== *)

(** ** C enumerations

    An [enum] body is a list of enumerators, each with an optional explicit
    value.  The C rule: an enumerator with [= v] has value [v]; one without
    has the value of its predecessor plus one, and the first has value 0. *)
Module CEnum.

Definition decl : Type := list (string * option Z).

Fixpoint assign (next : Z) (d : decl) : list (string * Z) :=
  match d with
  | [] => []
  | (name, explicit) :: d' =>
      let v := match explicit with Some v => v | None => next end in
      (name, v) :: assign (v + 1) d'
  end.

Definition values (d : decl) : list (string * Z) := assign 0 d.

Fixpoint find (name : string) (vs : list (string * Z)) : option Z :=
  match vs with
  | [] => None
  | (n, v) :: vs' => if String.eqb n name then Some v else find name vs'
  end.

(** The value of an enumerator; [-1] flags a name the enum does not
    declare (no enumerator of this header is negative). *)
Definition constant (d : decl) (name : string) : Z :=
  match find name (values d) with Some v => v | None => -1 end.

End CEnum.

(** ** Name of the userclient class and the driver bundle ID *)

Definition USERCLIENT_CLASS : string := "com_google_SantaDriver".
Definition USERCLIENT_ID : string := "com.google.santa-driver".

(** ** List of methods supported by the driver *)

Definition SantaDriverMethods : CEnum.decl :=
  [ ("kSantaUserClientOpen"%string, None);
    ("kSantaUserClientAllowBinary"%string, None);
    ("kSantaUserClientDenyBinary"%string, None);
    ("kSantaUserClientClearCache"%string, None);
    ("kSantaUserClientCacheCount"%string, None);
    (* Any methods supported by the driver are added above this line, so
       that the last enumerator remains the count of methods. *)
    ("kSantaUserClientNMethods"%string, None) ].

Definition kSantaUserClientOpen : Z :=
  CEnum.constant SantaDriverMethods "kSantaUserClientOpen".
Definition kSantaUserClientAllowBinary : Z :=
  CEnum.constant SantaDriverMethods "kSantaUserClientAllowBinary".
Definition kSantaUserClientDenyBinary : Z :=
  CEnum.constant SantaDriverMethods "kSantaUserClientDenyBinary".
Definition kSantaUserClientClearCache : Z :=
  CEnum.constant SantaDriverMethods "kSantaUserClientClearCache".
Definition kSantaUserClientCacheCount : Z :=
  CEnum.constant SantaDriverMethods "kSantaUserClientCacheCount".
Definition kSantaUserClientNMethods : Z :=
  CEnum.constant SantaDriverMethods "kSantaUserClientNMethods".

(** The control operations, in the order the interface lists them. *)
Inductive control_op : Type :=
  | OpOpen | OpAllowBinary | OpDenyBinary | OpClearCache | OpCacheCount.

Definition control_ops : list control_op :=
  [OpOpen; OpAllowBinary; OpDenyBinary; OpClearCache; OpCacheCount].

Definition method_id (op : control_op) : Z :=
  match op with
  | OpOpen => kSantaUserClientOpen
  | OpAllowBinary => kSantaUserClientAllowBinary
  | OpDenyBinary => kSantaUserClientDenyBinary
  | OpClearCache => kSantaUserClientClearCache
  | OpCacheCount => kSantaUserClientCacheCount
  end.

(** ** Actions passed down the IODataQueue and in response methods

    [santa_action_t] gives every enumerator an explicit value; an action
    travels as the integer tag. *)

Definition ACTION_UNSET : Z := 0.

(* CHECKBW *)
Definition ACTION_REQUEST_CHECKBW : Z := 10.
Definition ACTION_RESPOND_CHECKBW_ALLOW : Z := 11.
Definition ACTION_RESPOND_CHECKBW_DENY : Z := 12.

(* NOTIFY *)
Definition ACTION_NOTIFY_EXEC : Z := 20.
Definition ACTION_NOTIFY_WRITE : Z := 21.
Definition ACTION_NOTIFY_RENAME : Z := 22.
Definition ACTION_NOTIFY_LINK : Z := 23.
Definition ACTION_NOTIFY_EXCHANGE : Z := 24.
Definition ACTION_NOTIFY_DELETE : Z := 25.

(* SHUTDOWN *)
Definition ACTION_REQUEST_SHUTDOWN : Z := 90.

(* ERROR *)
Definition ACTION_ERROR : Z := 99.

(** The enum as a declaration, for the C numbering rule to be run on. *)
Definition santa_action_t_decl : CEnum.decl :=
  [ ("ACTION_UNSET"%string, Some 0);
    ("ACTION_REQUEST_CHECKBW"%string, Some 10);
    ("ACTION_RESPOND_CHECKBW_ALLOW"%string, Some 11);
    ("ACTION_RESPOND_CHECKBW_DENY"%string, Some 12);
    ("ACTION_NOTIFY_EXEC"%string, Some 20);
    ("ACTION_NOTIFY_WRITE"%string, Some 21);
    ("ACTION_NOTIFY_RENAME"%string, Some 22);
    ("ACTION_NOTIFY_LINK"%string, Some 23);
    ("ACTION_NOTIFY_EXCHANGE"%string, Some 24);
    ("ACTION_NOTIFY_DELETE"%string, Some 25);
    ("ACTION_REQUEST_SHUTDOWN"%string, Some 90);
    ("ACTION_ERROR"%string, Some 99) ].

(** The families are the comment groups of the enum ([ACTION_UNSET] stands
    alone before the first group). *)
Inductive action_family : Type :=
  | FAMILY_UNSET | FAMILY_CHECKBW | FAMILY_NOTIFY | FAMILY_SHUTDOWN | FAMILY_ERROR.

Definition santa_action_table : list (Z * action_family) :=
  [ (ACTION_UNSET, FAMILY_UNSET);
    (ACTION_REQUEST_CHECKBW, FAMILY_CHECKBW);
    (ACTION_RESPOND_CHECKBW_ALLOW, FAMILY_CHECKBW);
    (ACTION_RESPOND_CHECKBW_DENY, FAMILY_CHECKBW);
    (ACTION_NOTIFY_EXEC, FAMILY_NOTIFY);
    (ACTION_NOTIFY_WRITE, FAMILY_NOTIFY);
    (ACTION_NOTIFY_RENAME, FAMILY_NOTIFY);
    (ACTION_NOTIFY_LINK, FAMILY_NOTIFY);
    (ACTION_NOTIFY_EXCHANGE, FAMILY_NOTIFY);
    (ACTION_NOTIFY_DELETE, FAMILY_NOTIFY);
    (ACTION_REQUEST_SHUTDOWN, FAMILY_SHUTDOWN);
    (ACTION_ERROR, FAMILY_ERROR) ].

Definition santa_action_values : list Z := map fst santa_action_table.

(** Membership of a tag in the enumerated set, as the boolean a decoder
    can branch on. *)
Definition is_santa_action (x : Z) : bool :=
  existsb (Z.eqb x) santa_action_values.

(** Classification of a tag: the family of the first enumerator carrying
    that value. *)
Fixpoint family_lookup (x : Z) (tbl : list (Z * action_family)) : option action_family :=
  match tbl with
  | [] => None
  | (v, f) :: tbl' => if x =? v then Some f else family_lookup x tbl'
  end.

Definition action_family_of (x : Z) : option action_family :=
  family_lookup x santa_action_table.

(** [#define CHECKBW_RESPONSE_VALID(x)
      (x == ACTION_RESPOND_CHECKBW_ALLOW || x == ACTION_RESPOND_CHECKBW_DENY)] *)
Definition CHECKBW_RESPONSE_VALID (x : Z) : bool :=
  (x =? ACTION_RESPOND_CHECKBW_ALLOW) || (x =? ACTION_RESPOND_CHECKBW_DENY).

(** The integer range the interface description assigns to a family
    (request/response 10-19, notify 20-29, shutdown 90-99, error = 99);
    it gives no range for the unset sentinel. *)
Definition family_range (f : action_family) : option (Z * Z) :=
  match f with
  | FAMILY_UNSET => None
  | FAMILY_CHECKBW => Some (10, 19)
  | FAMILY_NOTIFY => Some (20, 29)
  | FAMILY_SHUTDOWN => Some (90, 99)
  | FAMILY_ERROR => Some (99, 99)
  end.

Definition in_family_range (f : action_family) (v : Z) : Prop :=
  match family_range f with
  | Some (lo, hi) => lo <= v <= hi
  | None => False
  end.

(** Every tag of a family that has a range lies in it. *)
Definition tags_within_family_ranges : Prop :=
  forall v f, (v, f) ∈ santa_action_table ->
    f <> FAMILY_UNSET -> in_family_range f v.

(** No integer lies in the ranges of two different families. *)
Definition family_ranges_disjoint : Prop :=
  forall f g v, f <> g -> in_family_range f v -> in_family_range g v -> False.

(** ** Lengths of Vnode IDs passed around *)

(** [#define MAX_VNODE_ID_STR 21], digits in UINT64_MAX + 1 for the
    NUL terminator. *)
Definition MAX_VNODE_ID_STR : Z := 21.

(** [UINT64_MAX] of <stdint.h>, the largest value of the [uint64_t]
    field [vnode_id]. *)
Definition UINT64_MAX : Z := 18446744073709551615.

(** The decimal string of an unsigned integer (what the [%llu] conversion
    prints): digits are produced from the least significant one, each
    pushed in front of those already there, until the quotient is 0. *)
Definition digit_char (d : Z) : byte := byte.of_Z (48 + d).

Fixpoint utoa_go (fuel : nat) (v : Z) (acc : list byte) : list byte :=
  match fuel with
  | O => acc
  | S fuel' =>
      let acc' := digit_char (v mod 10) :: acc in
      if v / 10 =? 0 then acc' else utoa_go fuel' (v / 10) acc'
  end.

(** One round per binary digit of [v] is more than the decimal digits
    need, so the fuel never cuts the string short (see
    [decimal_value_decimal]). *)
Definition decimal (v : Z) : list byte :=
  utoa_go (S (Z.to_nat (Z.log2 v))) v [].

(** The C string of a vnode id: its decimal digits and the terminator. *)
Definition vnode_id_str (v : Z) : list byte := decimal v ++ [Byte.x00].

(** The number a string of decimal digits denotes. *)
Definition decimal_value_from (a : Z) (l : list byte) : Z :=
  fold_left (fun a b => 10 * a + (byte.unsigned b - 48)) l a.

Definition decimal_value (l : list byte) : Z := decimal_value_from 0 l.

(** ** C struct layout

    A struct is a list of named members; every member here is an integer
    of some byte width or an array of [char].  Members are laid out in
    declaration order, each at the next offset that is a multiple of its
    alignment (the gap is padding), and the struct is padded at the end to
    a multiple of its strictest member alignment.  Integers are stored
    little-endian, two's complement. *)
Module CStruct.

Inductive signedness : Type := Signed | Unsigned.

Inductive ctype : Type :=
  | Tint (sg : signedness) (bytes : nat)
  | Tchars (n : nat).

Definition sizeof (t : ctype) : nat :=
  match t with
  | Tint _ w => w
  | Tchars n => n
  end.

Definition alignof (t : ctype) : nat :=
  match t with
  | Tint _ w => w
  | Tchars _ => 1
  end.

(** Bytes to skip from offset [off] to reach a multiple of [a]. *)
Definition padding (off a : nat) : nat := ((a - off mod a) mod a)%nat.

Definition members : Type := list (string * ctype).

Fixpoint end_offset (off : nat) (fs : members) : nat :=
  match fs with
  | [] => off
  | (_, t) :: fs' =>
      end_offset (off + padding off (alignof t) + sizeof t) fs'
  end.

(** The offset of every member, in declaration order. *)
Fixpoint member_offsets (off : nat) (fs : members) : list nat :=
  match fs with
  | [] => []
  | (_, t) :: fs' =>
      let o := (off + padding off (alignof t))%nat in
      o :: member_offsets (o + sizeof t) fs'
  end.

Definition struct_align (fs : members) : nat :=
  fold_right Nat.max 1%nat (map (fun f => alignof (snd f)) fs).

Definition tail_padding (fs : members) : nat :=
  padding (end_offset 0 fs) (struct_align fs).

Definition struct_size (fs : members) : nat :=
  (end_offset 0 fs + tail_padding fs)%nat.

(** The value a member holds. *)
Inductive cval : Type :=
  | Vint (z : Z)
  | Vchars (l : list byte).

Definition in_range (sg : signedness) (w : nat) (z : Z) : Prop :=
  match sg with
  | Unsigned => 0 <= z < 2 ^ (Z.of_nat w * 8)
  | Signed => - 2 ^ (Z.of_nat w * 8 - 1) <= z < 2 ^ (Z.of_nat w * 8 - 1)
  end.

Definition has_type (v : cval) (t : ctype) : Prop :=
  match t, v with
  | Tint sg w, Vint z => in_range sg w z
  | Tchars n, Vchars l => length l = n
  | _, _ => False
  end.

Definition sign_extend (w : nat) (u : Z) : Z :=
  if u <? 2 ^ (Z.of_nat w * 8 - 1) then u else u - 2 ^ (Z.of_nat w * 8).

(** The bytes of a member: exactly [sizeof t] of them.  An integer is
    reduced modulo [2 ^ (8 * w)]; a [char] array is cut or NUL-filled to
    its capacity. *)
Definition store_val (t : ctype) (v : cval) : list byte :=
  match t, v with
  | Tint _ w, Vint z => le_split w z
  | Tchars n, Vchars l => resize n Byte.x00 l
  | _, _ => repeat Byte.x00 (sizeof t)
  end.

Definition load_val (t : ctype) (bs : list byte) : cval :=
  match t with
  | Tint Unsigned _ => Vint (le_combine bs)
  | Tint Signed w => Vint (sign_extend w (le_combine bs))
  | Tchars _ => Vchars bs
  end.

Fixpoint store_members (off : nat) (fs : members) (vs : list cval) : list byte :=
  match fs, vs with
  | (_, t) :: fs', v :: vs' =>
      let pad := padding off (alignof t) in
      repeat Byte.x00 pad ++ store_val t v
        ++ store_members (off + pad + sizeof t) fs' vs'
  | _, _ => []
  end.

(** The memory image of a struct value (padding bytes are written as 0). *)
Definition store_struct (fs : members) (vs : list cval) : list byte :=
  store_members 0 fs vs ++ repeat Byte.x00 (tail_padding fs).

Fixpoint load_members (off : nat) (fs : members) (bs : list byte) : list cval :=
  match fs with
  | [] => []
  | (_, t) :: fs' =>
      let pad := padding off (alignof t) in
      let bs' := drop pad bs in
      load_val t (take (sizeof t) bs')
        :: load_members (off + pad + sizeof t) fs' (drop (sizeof t) bs')
  end.

End CStruct.

Import CStruct.

(** ** Message struct that is sent down the IODataQueue *)

(** What <sys/param.h> and <sys/types.h>, which the header includes but
    which are not part of these sources, fix for a platform: the byte
    widths of [uid_t], [gid_t] and [pid_t], and [MAXPATHLEN]. *)
Record platform : Type := {
  uid_t_bytes : nat;
  gid_t_bytes : nat;
  pid_t_bytes : nat;
  MAXPATHLEN : nat;
}.

(** The values on Darwin (LP64): 32-bit ids and [MAXPATHLEN = PATH_MAX = 1024]. *)
Definition darwin : platform :=
  {| uid_t_bytes := 4; gid_t_bytes := 4; pid_t_bytes := 4; MAXPATHLEN := 1024 |}.

(** [santa_action_t] is an enum, which the compiler represents as an
    [int]: a 4-byte signed tag on the wire. *)
Definition santa_action_ctype : ctype := Tint Signed 4.
Definition uint64_t : ctype := Tint Unsigned 8.
Definition uid_t (P : platform) : ctype := Tint Unsigned (uid_t_bytes P).
Definition gid_t (P : platform) : ctype := Tint Unsigned (gid_t_bytes P).
Definition pid_t (P : platform) : ctype := Tint Signed (pid_t_bytes P).

Record santa_message_t : Type := {
  action : Z;
  vnode_id : Z;
  uid : Z;
  gid : Z;
  pid : Z;
  ppid : Z;
  path : list byte;
  newpath : list byte;
}.

Definition santa_message_members (P : platform) : members :=
  [ ("action"%string, santa_action_ctype);
    ("vnode_id"%string, uint64_t);
    ("uid"%string, uid_t P);
    ("gid"%string, gid_t P);
    ("pid"%string, pid_t P);
    ("ppid"%string, pid_t P);
    ("path"%string, Tchars (MAXPATHLEN P));
    ("newpath"%string, Tchars (MAXPATHLEN P)) ].

Definition message_vals (m : santa_message_t) : list cval :=
  [ Vint (action m); Vint (vnode_id m); Vint (uid m); Vint (gid m);
    Vint (pid m); Vint (ppid m); Vchars (path m); Vchars (newpath m) ].

Definition vals_message (vs : list cval) : option santa_message_t :=
  match vs with
  | [Vint a; Vint v; Vint u; Vint g; Vint p; Vint pp; Vchars pa; Vchars np] =>
      Some {| action := a; vnode_id := v; uid := u; gid := g;
              pid := p; ppid := pp; path := pa; newpath := np |}
  | _ => None
  end.

(** [sizeof(santa_message_t)]: the size of every record on the queue. *)
Definition wire_size (P : platform) : nat :=
  struct_size (santa_message_members P).

(** The memory image of a message, and the message an image holds. *)
Definition struct_image (P : platform) (m : santa_message_t) : list byte :=
  store_struct (santa_message_members P) (message_vals m).

Definition struct_read (P : platform) (bs : list byte) : option santa_message_t :=
  vals_message (load_members 0 (santa_message_members P) bs).

(** A message whose members hold values of their C types: integers within
    the range of their width, both path buffers exactly [MAXPATHLEN] bytes. *)
Definition well_typed_message (P : platform) (m : santa_message_t) : Prop :=
  Forall2 has_type (message_vals m) (map snd (santa_message_members P)).

(** The all-zero record, as [bzero]/[memset] leave it. *)
Definition zero_image (P : platform) : list byte :=
  repeat Byte.x00 (wire_size P).

(** ** Errors of the protocol *)

Inductive protocol_error : Type :=
  | MalformedMessage
  | UnknownAction
  | ProtocolViolation
  | ChannelUnavailable
  | PathTooLong.

Inductive result (A : Type) : Type :=
  | Ok (a : A)
  | Err (e : protocol_error).

Arguments Ok {A} a.
Arguments Err {A} e.

(** ** Message codec *)

(** Modelled from the spec: the validity of a (request, response) pair of
    actions (section 4.2); the header only has the macro for the response
    half.  The blocking exchange has one request, request-check-allowed,
    and its two responses. *)
Definition isValidResponse (requestAction responseAction : Z) : bool :=
  (requestAction =? ACTION_REQUEST_CHECKBW) && CHECKBW_RESPONSE_VALID responseAction.

(** Modelled from the spec: a valid Message (section 3); the sources
    declare the record but no validity check.  It carries one enumerated
    action tag and its members hold values of their declared types. *)
Definition valid_message (P : platform) (m : santa_message_t) : Prop :=
  is_santa_action (action m) = true /\ well_typed_message P m.

(** Modelled from the spec: [encode] (section 4.1), which the sources do
    not contain.  The wire record is the fixed layout of section 6, the
    memory image of the struct, with no framing; of the two policies the
    description allows for a path longer than the buffer, this encoder
    fails with [PathTooLong]. *)
Definition encode (P : platform) (m : santa_message_t) : result (list byte) :=
  if ((MAXPATHLEN P <? length (path m)) || (MAXPATHLEN P <? length (newpath m)))%nat
  then Err PathTooLong
  else Ok (struct_image P m).

(** Modelled from the spec: [decode] (sections 4.1 and 4.2), which the
    sources do not contain.  It fails with [MalformedMessage] unless the
    input has exactly the fixed record size, and with [UnknownAction] when
    the action tag is outside the enumerated set. *)
Definition decode (P : platform) (bs : list byte) : result santa_message_t :=
  if (length bs =? wire_size P)%nat then
    match struct_read P bs with
    | Some m => if is_santa_action (action m) then Ok m else Err UnknownAction
    | None => Err MalformedMessage
    end
  else Err MalformedMessage.

(** ** Authorization session *)
Module Session.

Inductive verdict : Type := Allow | Deny.

(** A blocked caller is known by its wait handle. *)
Definition caller : Type := nat.

(** Modelled from the spec: the Decision Cache and the Pending Request
    Table (section 3), neither of which is in the sources.  Both are
    keyed by the binary identity (the vnode id); the callers blocked on
    one identity share its pending entry. *)
Record state : Type := {
  cache : gmap Z verdict;
  pending : gmap Z (list caller);
}.

(** Modelled from the spec: the operations of the Decision Cache
    (section 4.3), not in the sources. *)
Definition lookup (ident : Z) (st : state) : option verdict := cache st !! ident.

Definition recordVerdict (ident : Z) (v : verdict) (st : state) : state :=
  {| cache := <[ident := v]> (cache st); pending := pending st |}.

Definition invalidate (ident : Z) (st : state) : state :=
  {| cache := delete ident (cache st); pending := pending st |}.

Definition clear (st : state) : state :=
  {| cache := ∅; pending := pending st |}.

Definition count (st : state) : nat := size (cache st).

(** What one step of the session does for the callers. *)
Inductive outcome : Type :=
  | Decided (v : verdict)
    (* cache hit: the caller has its verdict at once, no message sent *)
  | RequestPending (request : santa_message_t)
    (* cache miss: the request is enqueued and the caller blocks *)
  | Notified
    (* fire-and-forget notification, no response expected *)
  | Resolved (ident : Z) (waiters : list caller) (v : verdict)
    (* the callers blocked on [ident] resume with [v] *)
  | Ignored (e : protocol_error)
    (* a stray message: logged and ignored, no caller resolved *)
  | SessionFailed (e : option protocol_error) (v : verdict)
    (* the session degrades to the fail-safe verdict [v] *)
  | ShutDown (resumed : list (Z * list caller)) (v : verdict)
    (* teardown: every pending request resolves with the fail-safe [v] *)
  | Unspecified.
    (* the description fixes no behaviour *)

(** The blocked callers a step resumes, each with the identity it was
    waiting on. *)
Definition resumed (o : outcome) : list (Z * list caller) :=
  match o with
  | Resolved ident ws _ => [(ident, ws)]
  | ShutDown rs _ => rs
  | _ => []
  end.

(** The verdict a response action carries: the response must be exactly
    allow or deny. *)
Definition response_verdict (a : Z) : option verdict :=
  if CHECKBW_RESPONSE_VALID a
  then Some (if a =? ACTION_RESPOND_CHECKBW_ALLOW then Allow else Deny)
  else None.

(** Modelled from the spec: the transition [RequestPending -> Resolved]
    (section 4.4) and the handling of [ProtocolViolation] (section 7),
    not in the sources.  A response for identity [J] with action [a]
    resolves the pending entry of [J]: the verdict is recorded, the
    entry removed and its callers resumed.  A response that is not
    exactly allow or deny, or that matches no pending entry, is ignored. *)
Definition deliver_response (J : Z) (a : Z) (st : state) : state * outcome :=
  match pending st !! J with
  | None => (st, Ignored ProtocolViolation)
  | Some ws =>
      match response_verdict a with
      | None => (st, Ignored ProtocolViolation)
      | Some v =>
          ({| cache := cache (recordVerdict J v st);
              pending := delete J (pending st) |},
           Resolved J ws v)
      end
  end.

(** Modelled from the spec: the transitions out of [CacheChecking]
    (section 4.4), not in the sources.  A cached verdict decides at
    once; otherwise the request is sent and the caller joins the pending
    entry of its identity. *)
Definition request (c : caller) (m : santa_message_t) (st : state) : state * outcome :=
  match lookup (vnode_id m) st with
  | Some v => (st, Decided v)
  | None =>
      let ws := default [] (pending st !! vnode_id m) in
      ({| cache := cache st; pending := <[vnode_id m := ws ++ [c]]> (pending st) |},
       RequestPending m)
  end.

Section WithFailSafe.

(** The configured fail-safe verdict. *)
Variable fail_safe : verdict.

(** Modelled from the spec: channel shutdown (section 5), not in the
    sources: all pending requests resolve with the fail-safe verdict
    and nothing is cached. *)
Definition shutdown (st : state) : state * outcome :=
  ({| cache := cache st; pending := ∅ |},
   ShutDown (map_to_list (pending st)) fail_safe).

(** Modelled from the spec: dispatch of a message by its action
    (sections 4.2, 4.4 and 7), not in the sources.  A tag outside the
    enumerated set is an [UnknownAction]: it is treated as an error
    signal and fails the session to the fail-safe verdict. *)
Definition dispatch (c : caller) (m : santa_message_t) (st : state) : state * outcome :=
  match action_family_of (action m) with
  | None => (st, SessionFailed (Some UnknownAction) fail_safe)
  | Some FAMILY_ERROR => (st, SessionFailed None fail_safe)
  | Some FAMILY_NOTIFY => (st, Notified)
  | Some FAMILY_CHECKBW =>
      if action m =? ACTION_REQUEST_CHECKBW
      then request c m st
      else deliver_response (vnode_id m) (action m) st
  | Some FAMILY_SHUTDOWN => shutdown st
  | Some FAMILY_UNSET => (st, Unspecified)
  end.

End WithFailSafe.

End Session.

(** ** Sample records *)

(** A check request whose primary path fills the whole buffer (no NUL
    anywhere in it) and whose secondary path has a NUL first, a NUL last
    and one in the middle. *)
Definition sample_request : santa_message_t :=
  {| action := ACTION_REQUEST_CHECKBW;
     vnode_id := UINT64_MAX;
     uid := 501; gid := 20; pid := 4242; ppid := -1;
     path := repeat Byte.x2f 1024;
     newpath := Byte.x00 :: repeat Byte.x61 511 ++ Byte.x00 :: repeat Byte.x62 510
                  ++ [Byte.x00] |}.

(** The same record with a tag that [santa_action_t] does not enumerate. *)
Definition sample_unknown : santa_message_t :=
  {| action := 13;
     vnode_id := vnode_id sample_request;
     uid := uid sample_request; gid := gid sample_request;
     pid := pid sample_request; ppid := ppid sample_request;
     path := path sample_request; newpath := newpath sample_request |}.

(** A session state with one request pending, for identity 5. *)
Definition sample_state : Session.state :=
  {| Session.cache := ∅; Session.pending := {[ 5 := [1%nat] ]} |}.

(** ** The method list under extension *)

(** The enumerators above the line that closes [SantaDriverMethods], and
    the one below it. *)
Definition SantaDriverMethods_names : list string :=
  [ "kSantaUserClientOpen"; "kSantaUserClientAllowBinary";
    "kSantaUserClientDenyBinary"; "kSantaUserClientClearCache";
    "kSantaUserClientCacheCount" ]%string.

Definition NMethods_name : string := "kSantaUserClientNMethods".


(** An enum whose enumerators all go without an explicit value, as those
    of [SantaDriverMethods] do. *)
Definition plain_enum (names : list string) : CEnum.decl :=
  map (fun n => (n, None)) names.

(** The enum after further methods were added above the line, as its
    comment asks: the new enumerators follow the existing ones and
    [kSantaUserClientNMethods] stays last. *)
Definition SantaDriverMethods_above (added : list string) : CEnum.decl :=
  plain_enum (SantaDriverMethods_names ++ added ++ [NMethods_name]).

(** The enum after a method was added below the line instead. *)
Definition SantaDriverMethods_below (added : string) : CEnum.decl :=
  SantaDriverMethods ++ [(added, None)].

(** ** Reading members back *)


(** A platform with 32-bit ids, as Darwin has, for any [MAXPATHLEN]. *)
Definition ids32 (maxpathlen : nat) : platform :=
  {| uid_t_bytes := 4; gid_t_bytes := 4; pid_t_bytes := 4; MAXPATHLEN := maxpathlen |}.

(** ** Characters of a vnode-id string *)

(** The ASCII digits ['0'] .. ['9']. *)
Definition is_decimal_digit (b : byte) : Prop := 48 <= byte.unsigned b <= 57.

(* ===================================================================== *)
(** * Part II: properties                                                *)
(* ===================================================================== *)

(** ** Enumerations *)

Lemma santa_action_t_decl_values :
  map snd (CEnum.values santa_action_t_decl) = santa_action_values.
Proof. reflexivity. Qed.

Lemma santa_action_t_constants :
  map (CEnum.constant santa_action_t_decl) (map fst santa_action_t_decl)
  = santa_action_values.
Proof. reflexivity. Qed.

Lemma is_santa_action_elem_of (x : Z) :
  is_santa_action x = true <-> x ∈ santa_action_values.
Proof.
  unfold is_santa_action. rewrite existsb_exists, list_elem_of_In. split.
  - intros (y & Hy & Hxy). apply Z.eqb_eq in Hxy. now subst.
  - intros Hx. exists x. split; [assumption | apply Z.eqb_refl].
Qed.

Lemma family_lookup_elem_of (x : Z) (f : action_family) (tbl : list (Z * action_family)) :
  family_lookup x tbl = Some f -> (x, f) ∈ tbl.
Proof.
  induction tbl as [| [v g] tbl IH]; simpl; [discriminate |].
  destruct (Z.eqb_spec x v) as [-> | Hne].
  - intros [= ->]. apply list_elem_of_here.
  - intros H. apply list_elem_of_further. now apply IH.
Qed.

Lemma family_lookup_NoDup (x : Z) (f : action_family) (tbl : list (Z * action_family)) :
  NoDup (map fst tbl) -> (x, f) ∈ tbl -> family_lookup x tbl = Some f.
Proof.
  induction tbl as [| [v g] tbl IH]; simpl; [intros _ Hin; inversion Hin |].
  intros Hnd Hin. apply NoDup_cons in Hnd as [Hv Hnd].
  apply elem_of_cons in Hin as [Heq | Hin].
  - injection Heq as -> ->. now rewrite Z.eqb_refl.
  - destruct (Z.eqb_spec x v) as [-> | Hne].
    + exfalso. apply Hv. apply list_elem_of_fmap. now exists (v, f).
    + now apply IH.
Qed.

Lemma santa_action_values_NoDup : NoDup santa_action_values.
Proof. apply (bool_decide_unpack _). vm_compute. exact I. Qed.

Lemma CHECKBW_RESPONSE_VALID_iff (x : Z) :
  CHECKBW_RESPONSE_VALID x = true <->
  x = ACTION_RESPOND_CHECKBW_ALLOW \/ x = ACTION_RESPOND_CHECKBW_DENY.
Proof.
  unfold CHECKBW_RESPONSE_VALID.
  rewrite orb_true_iff, !Z.eqb_eq. reflexivity.
Qed.

(** C1: [CHECKBW_RESPONSE_VALID(x)] holds exactly for the two respond tags:
    it is true of respond-allow (and respond-deny) and false of every other
    enumerated tag, among them exec-notify, the request tag itself, the
    unset sentinel, the shutdown request and the error tag. *)
Theorem CHECKBW_RESPONSE_VALID_spec :
  (forall x : Z,
      CHECKBW_RESPONSE_VALID x = true <->
      x = ACTION_RESPOND_CHECKBW_ALLOW \/ x = ACTION_RESPOND_CHECKBW_DENY)
  /\ CHECKBW_RESPONSE_VALID ACTION_RESPOND_CHECKBW_ALLOW = true
  /\ CHECKBW_RESPONSE_VALID ACTION_RESPOND_CHECKBW_DENY = true
  /\ CHECKBW_RESPONSE_VALID ACTION_NOTIFY_EXEC = false
  /\ CHECKBW_RESPONSE_VALID ACTION_REQUEST_CHECKBW = false
  /\ CHECKBW_RESPONSE_VALID ACTION_UNSET = false
  /\ CHECKBW_RESPONSE_VALID ACTION_REQUEST_SHUTDOWN = false
  /\ CHECKBW_RESPONSE_VALID ACTION_ERROR = false
  /\ filter CHECKBW_RESPONSE_VALID santa_action_values
     = [ACTION_RESPOND_CHECKBW_ALLOW; ACTION_RESPOND_CHECKBW_DENY].
Proof.
  split; [exact CHECKBW_RESPONSE_VALID_iff | repeat split].
Qed.

(** C2, as stated, fails: the error tag 99 lies in the range 90-99 of the
    shutdown family as well as in its own, so the ranges of the families
    are not disjoint. *)
Lemma family_ranges_overlap_at_ACTION_ERROR :
  ~ (tags_within_family_ranges /\ family_ranges_disjoint).
Proof.
  intros [_ Hdisj].
  apply (Hdisj FAMILY_SHUTDOWN FAMILY_ERROR ACTION_ERROR).
  - discriminate.
  - unfold in_family_range, ACTION_ERROR; simpl; lia.
  - unfold in_family_range, ACTION_ERROR; simpl; lia.
Qed.

(** C2, amended: every request/response tag lies in 10-19, every notify tag
    in 20-29, the shutdown tag in 90-99 and the error tag equals 99; the
    ranges 10-19, 20-29 and 90-99 are pairwise disjoint, and the only
    integer in the ranges of two families is 99, shared by shutdown and
    error, whose tags 90 and 99 nevertheless differ. *)
Theorem family_ranges_grouping :
  tags_within_family_ranges
  /\ Forall (fun v => 10 <= v <= 19)
       [ACTION_REQUEST_CHECKBW; ACTION_RESPOND_CHECKBW_ALLOW; ACTION_RESPOND_CHECKBW_DENY]
  /\ Forall (fun v => 20 <= v <= 29)
       [ACTION_NOTIFY_EXEC; ACTION_NOTIFY_WRITE; ACTION_NOTIFY_RENAME;
        ACTION_NOTIFY_LINK; ACTION_NOTIFY_EXCHANGE; ACTION_NOTIFY_DELETE]
  /\ 90 <= ACTION_REQUEST_SHUTDOWN <= 99
  /\ ACTION_ERROR = 99
  /\ (forall f g v, f <> g -> in_family_range f v -> in_family_range g v ->
        v = ACTION_ERROR /\
        (f = FAMILY_SHUTDOWN /\ g = FAMILY_ERROR \/ f = FAMILY_ERROR /\ g = FAMILY_SHUTDOWN))
  /\ (forall f g v, f <> FAMILY_ERROR -> g <> FAMILY_ERROR -> f <> g ->
        in_family_range f v -> in_family_range g v -> False)
  /\ ACTION_REQUEST_SHUTDOWN <> ACTION_ERROR.
Proof.
  repeat split.
  - intros v f Hin Hf. unfold in_family_range.
    unfold santa_action_table in Hin.
    repeat (apply elem_of_cons in Hin as [Heq | Hin];
            [injection Heq as -> ->; first [congruence | vm_compute; split; discriminate] |]).
    inversion Hin.
  - repeat constructor; vm_compute; discriminate.
  - repeat constructor; vm_compute; discriminate.
  - vm_compute; discriminate.
  - vm_compute; discriminate.
  - destruct f, g; unfold in_family_range in *; simpl in *;
      unfold ACTION_ERROR; first [congruence | lia].
  - destruct f, g; unfold in_family_range in *; simpl in *;
      unfold ACTION_ERROR; first [congruence | lia | tauto].
  - destruct f, g; unfold in_family_range; simpl; intros; first [congruence | lia].
  - discriminate.
Qed.

(** C3: the five control operations have the consecutive method ids 0..4
    in the order open, allow-binary, deny-binary, clear-cache, cache-count,
    and [kSantaUserClientNMethods] is 5, their number. *)
Theorem SantaDriverMethods_ids :
  map method_id control_ops = [0; 1; 2; 3; 4]
  /\ kSantaUserClientOpen = 0
  /\ kSantaUserClientAllowBinary = 1
  /\ kSantaUserClientDenyBinary = 2
  /\ kSantaUserClientClearCache = 3
  /\ kSantaUserClientCacheCount = 4
  /\ kSantaUserClientNMethods = 5
  /\ kSantaUserClientNMethods = Z.of_nat (length control_ops)
  /\ map snd (CEnum.values SantaDriverMethods) = [0; 1; 2; 3; 4; 5].
Proof. repeat split. Qed.

(** ** The vnode-id string buffer *)

Lemma digit_char_value (d : Z) :
  0 <= d < 10 -> byte.unsigned (digit_char d) - 48 = d.
Proof.
  intros Hd. unfold digit_char. rewrite byte.unsigned_of_Z.
  unfold byte.wrap. rewrite Z.mod_small; lia.
Qed.

Lemma utoa_go_length (fuel k : nat) (v : Z) (acc : list byte) :
  (1 <= k)%nat -> 0 <= v < 10 ^ Z.of_nat k ->
  (length (utoa_go fuel v acc) <= k + length acc)%nat.
Proof.
  revert k v acc. induction fuel as [| fuel IH]; intros k v acc Hk Hv; simpl.
  - lia.
  - destruct (Z.eqb_spec (v / 10) 0) as [Hq | Hq]; simpl; [lia |].
    destruct k as [| [| k]]; [lia | |].
    + exfalso. apply Hq. apply Z.div_small. simpl in Hv. lia.
    + assert (Hlt : 0 <= v / 10 < 10 ^ Z.of_nat (S k)).
      { split; [apply Z.div_pos; lia |].
        apply Z.div_lt_upper_bound; [lia |].
        replace (Z.of_nat (S (S k))) with (Z.succ (Z.of_nat (S k))) in Hv by lia.
        rewrite Z.pow_succ_r in Hv by lia. lia. }
      specialize (IH (S k) (v / 10) (digit_char (v mod 10) :: acc)).
      simpl in IH. simpl. etransitivity; [apply IH; [lia | exact Hlt] | lia].
Qed.

Lemma utoa_go_value (fuel : nat) (v : Z) (acc : list byte) :
  0 <= v < 2 ^ Z.of_nat fuel ->
  decimal_value (utoa_go fuel v acc) = decimal_value_from v acc.
Proof.
  unfold decimal_value.
  revert v acc. induction fuel as [| fuel IH]; intros v acc Hv.
  - simpl in *. now replace v with 0 by lia.
  - cbn [utoa_go].
    assert (Hm : 0 <= v mod 10 < 10) by (apply Z.mod_pos_bound; lia).
    assert (Hdm : v = 10 * (v / 10) + v mod 10) by (apply Z.div_mod; lia).
    destruct (Z.eqb_spec (v / 10) 0) as [Hq | Hq].
    + unfold decimal_value_from. simpl.
      rewrite digit_char_value by assumption. f_equal. lia.
    + rewrite IH.
      * unfold decimal_value_from. simpl.
        rewrite digit_char_value by assumption. f_equal. lia.
      * split; [apply Z.div_pos; lia |].
        apply Z.div_lt_upper_bound; [lia |].
        replace (Z.of_nat (S fuel)) with (Z.succ (Z.of_nat fuel)) in Hv by lia.
        rewrite Z.pow_succ_r in Hv by lia. lia.
Qed.

(** The digits of [decimal v] denote [v]: no digit is lost. *)
Lemma decimal_value_decimal (v : Z) :
  0 <= v -> decimal_value (decimal v) = v.
Proof.
  intros Hv. unfold decimal. rewrite utoa_go_value; [reflexivity |].
  split; [assumption |].
  destruct (Z.eq_dec v 0) as [-> | Hnz]; [reflexivity |].
  rewrite Nat2Z.inj_succ, Z2Nat.id by apply Z.log2_nonneg.
  apply Z.log2_spec. lia.
Qed.

(** C10: [MAX_VNODE_ID_STR] is 21, the 20 decimal digits of [UINT64_MAX]
    plus one byte for the terminator, and the decimal string of every
    64-bit unsigned vnode id, terminator included, fits in a buffer of
    [MAX_VNODE_ID_STR] bytes (the string denotes the id, digit for
    digit). *)
Theorem MAX_VNODE_ID_STR_fits (v : Z) :
  0 <= v <= UINT64_MAX ->
  MAX_VNODE_ID_STR = 21
  /\ UINT64_MAX = 2 ^ 64 - 1
  /\ length (decimal UINT64_MAX) = 20%nat
  /\ MAX_VNODE_ID_STR = Z.of_nat (length (decimal UINT64_MAX)) + 1
  /\ Z.of_nat (length (vnode_id_str v)) <= MAX_VNODE_ID_STR
  /\ decimal_value (decimal v) = v.
Proof.
  intros Hv. repeat split; try lia.
  - unfold vnode_id_str, MAX_VNODE_ID_STR. rewrite length_app. simpl.
    pose proof (utoa_go_length (S (Z.to_nat (Z.log2 v))) 20 v []) as Hlen.
    fold (decimal v) in Hlen. simpl length in Hlen.
    unfold UINT64_MAX in Hv.
    assert (length (decimal v) <= 20)%nat by (apply Hlen; [lia | simpl; lia]).
    lia.
  - apply decimal_value_decimal. lia.
Qed.

(** The bound of C10 is met with equality at [UINT64_MAX]. *)
Lemma MAX_VNODE_ID_STR_fits_witness :
  0 <= UINT64_MAX <= UINT64_MAX
  /\ (MAX_VNODE_ID_STR = 21
      /\ UINT64_MAX = 2 ^ 64 - 1
      /\ length (decimal UINT64_MAX) = 20%nat
      /\ MAX_VNODE_ID_STR = Z.of_nat (length (decimal UINT64_MAX)) + 1
      /\ Z.of_nat (length (vnode_id_str UINT64_MAX)) <= MAX_VNODE_ID_STR
      /\ decimal_value (decimal UINT64_MAX) = UINT64_MAX).
Proof.
  split; [vm_compute; split; discriminate |].
  apply (MAX_VNODE_ID_STR_fits UINT64_MAX). vm_compute; split; discriminate.
Defined.

Example vnode_id_str_UINT64_MAX :
  vnode_id_str UINT64_MAX
  = map byte.of_Z [49; 56; 52; 52; 54; 55; 52; 52; 48; 55; 51; 55; 48; 57;
                   53; 53; 49; 54; 49; 53; 0]
  /\ Z.of_nat (length (vnode_id_str UINT64_MAX)) = MAX_VNODE_ID_STR.
Proof. split; reflexivity. Qed.

(** ** Struct layout: the image has a fixed size and can be read back *)

Section CStructFacts.

Lemma length_store_val (t : ctype) (v : cval) :
  length (store_val t v) = sizeof t.
Proof.
  destruct t as [sg w | n], v as [z | l]; simpl;
    auto using length_le_split, repeat_length, length_resize.
Qed.

Lemma length_store_members (fs : members) (vs : list cval) (off : nat) :
  length vs = length fs ->
  (off + length (store_members off fs vs))%nat = end_offset off fs.
Proof.
  revert vs off. induction fs as [| [name t] fs IH]; intros [| v vs] off Hlen;
    simpl in *; try discriminate; [lia |].
  rewrite !length_app, repeat_length, length_store_val.
  rewrite <- (IH vs) by congruence. lia.
Qed.

Lemma length_store_struct (fs : members) (vs : list cval) :
  length vs = length fs -> length (store_struct fs vs) = struct_size fs.
Proof.
  intros Hlen. unfold store_struct, struct_size.
  rewrite length_app, repeat_length.
  pose proof (length_store_members fs vs 0 Hlen). lia.
Qed.

Lemma sign_extend_wrap (w : nat) (z : Z) :
  in_range Signed w z -> sign_extend w (z mod 2 ^ (Z.of_nat w * 8)) = z.
Proof.
  unfold in_range, sign_extend. intros Hz.
  destruct w as [| w].
  - simpl in Hz. lia.
  - set (h := 2 ^ (Z.of_nat (S w) * 8 - 1)) in *.
    assert (Hh : 0 < h) by (apply Z.pow_pos_nonneg; lia).
    assert (HM : 2 ^ (Z.of_nat (S w) * 8) = 2 * h).
    { unfold h. rewrite <- Z.pow_succ_r by lia. f_equal. lia. }
    rewrite HM. destruct (Z.lt_ge_cases z 0) as [Hneg | Hpos].
    + assert (Hmod : z mod (2 * h) = z + 2 * h).
      { symmetry. apply Z.mod_unique with (q := -1); lia. }
      rewrite Hmod. destruct (Z.ltb_spec (z + 2 * h) h); lia.
    + rewrite Z.mod_small by lia. destruct (Z.ltb_spec z h); lia.
Qed.

Lemma load_store_val (t : ctype) (v : cval) :
  has_type v t -> load_val t (store_val t v) = v.
Proof.
  destruct t as [[|] w | n], v as [z | l]; simpl; try contradiction; intros Hv.
  - rewrite le_combine_split. f_equal. now apply sign_extend_wrap.
  - rewrite le_combine_split. f_equal. apply Z.mod_small. exact Hv.
  - f_equal. subst n. apply resize_all.
Qed.

Lemma load_store_members (fs : members) (vs : list cval) (off : nat) (rest : list byte) :
  Forall2 has_type vs (map snd fs) ->
  load_members off fs (store_members off fs vs ++ rest) = vs.
Proof.
  revert vs off. induction fs as [| [name t] fs IH]; intros vs off Hty.
  - inversion Hty. reflexivity.
  - inversion Hty as [| v t' vs' ts' Hv Hvs]; subst. cbn [store_members load_members].
    rewrite <- !app_assoc.
    rewrite drop_app_length' by (symmetry; apply repeat_length).
    rewrite take_app_length' by (symmetry; apply length_store_val).
    rewrite drop_app_length' by (symmetry; apply length_store_val).
    rewrite load_store_val by assumption.
    f_equal. now apply IH.
Qed.

Variable P : platform.

Lemma length_struct_image (m : santa_message_t) :
  length (struct_image P m) = wire_size P.
Proof. apply length_store_struct. reflexivity. Qed.

Lemma struct_read_image (m : santa_message_t) :
  well_typed_message P m -> struct_read P (struct_image P m) = Some m.
Proof.
  intros Hty. unfold struct_read, struct_image, store_struct.
  rewrite load_store_members by exact Hty. now destruct m.
Qed.

(** Reading never fails structurally: any bytes yield eight members of
    the declared kinds (short input yields short members). *)
Lemma struct_read_total (bs : list byte) :
  exists m, struct_read P bs = Some m.
Proof. unfold struct_read. eexists. reflexivity. Qed.

(** The first sixteen bytes of the record (the action tag, its padding
    and the vnode id) lie at the same offsets on every platform. *)
Lemma struct_read_zero_image :
  option_map action (struct_read P (zero_image P)) = Some ACTION_UNSET.
Proof. reflexivity. Qed.

End CStructFacts.

(** ** The message record and its codec *)

Lemma end_offset_ge (fs : members) (off : nat) :
  (off + list_sum (map (fun f => sizeof (snd f)) fs) <= end_offset off fs)%nat.
Proof.
  revert off. induction fs as [| [name t] fs IH]; intros off; simpl; [lia |].
  etransitivity; [| apply IH]. lia.
Qed.

Lemma family_lookup_None (x : Z) (tbl : list (Z * action_family)) :
  x ∉ map fst tbl -> family_lookup x tbl = None.
Proof.
  induction tbl as [| [v f] tbl IH]; simpl; [reflexivity |].
  intros Hx. apply not_elem_of_cons in Hx as [Hne Hx].
  destruct (Z.eqb_spec x v); [contradiction | now apply IH].
Qed.

Lemma is_santa_action_false (x : Z) :
  x ∉ santa_action_values -> is_santa_action x = false.
Proof.
  intros Hx. destruct (is_santa_action x) eqn:E; [| reflexivity].
  apply is_santa_action_elem_of in E. contradiction.
Qed.

Lemma sample_request_valid : valid_message darwin sample_request.
Proof.
  split; [reflexivity |].
  unfold well_typed_message.
  repeat (apply Forall2_cons; split; [first [reflexivity | vm_compute; split; congruence] |]).
  apply Forall2_nil. exact I.
Qed.

Lemma sample_unknown_well_typed : well_typed_message darwin sample_unknown.
Proof.
  unfold well_typed_message.
  repeat (apply Forall2_cons; split; [first [reflexivity | vm_compute; split; congruence] |]).
  apply Forall2_nil. exact I.
Qed.

(** C4: a message is a fixed-size record of exactly eight members: the
    action tag, the 64-bit unsigned vnode id, user id, group id, process
    id, parent process id, and two path buffers of capacity [MAXPATHLEN]
    each; the image of every message has the same size [wire_size], which
    depends on the platform alone (2080 bytes on Darwin, the vnode id at
    offset 8 after four bytes of padding). *)
Theorem santa_message_t_layout (P : platform) :
  map fst (santa_message_members P)
  = [ "action"; "vnode_id"; "uid"; "gid"; "pid"; "ppid"; "path"; "newpath" ]%string
  /\ map snd (santa_message_members P)
     = [ santa_action_ctype; Tint Unsigned 8; uid_t P; gid_t P; pid_t P; pid_t P;
         Tchars (MAXPATHLEN P); Tchars (MAXPATHLEN P) ]
  /\ (forall m : santa_message_t,
        length (message_vals m) = length (santa_message_members P)
        /\ length (struct_image P m) = wire_size P)
  /\ (forall m : santa_message_t, well_typed_message P m ->
        0 <= vnode_id m < 2 ^ 64
        /\ length (path m) = MAXPATHLEN P
        /\ length (newpath m) = MAXPATHLEN P
        /\ struct_read P (struct_image P m) = Some m)
  /\ (4 + 8 + uid_t_bytes P + gid_t_bytes P + pid_t_bytes P + pid_t_bytes P
       + MAXPATHLEN P + MAXPATHLEN P <= wire_size P)%nat
  /\ member_offsets 0 (santa_message_members darwin)
     = [0; 8; 16; 20; 24; 28; 32; 1056]%nat
  /\ wire_size darwin = 2080%nat.
Proof.
  split; [reflexivity |]. split; [reflexivity |].
  split; [| split; [| split; [| split; reflexivity]]].
  - intros m. split; [reflexivity | apply length_struct_image].
  - intros m Hty. split; [| split; [| split]].
    + unfold well_typed_message in Hty. simpl in Hty.
      apply Forall2_cons in Hty as [_ Hty]. apply Forall2_cons in Hty as [Hv _].
      exact Hv.
    + unfold well_typed_message in Hty. simpl in Hty.
      do 6 (apply Forall2_cons in Hty as [_ Hty]).
      apply Forall2_cons in Hty as [Hp _]. exact Hp.
    + unfold well_typed_message in Hty. simpl in Hty.
      do 7 (apply Forall2_cons in Hty as [_ Hty]).
      apply Forall2_cons in Hty as [Hp _]. exact Hp.
    + now apply struct_read_image.
  - unfold wire_size, struct_size.
    pose proof (end_offset_ge (santa_message_members P) 0) as Hge.
    set (e := end_offset 0 (santa_message_members P)) in *.
    simpl in Hge. lia.
Qed.

(** C5: decoding the encoding of a valid message gives the message back,
    whatever its path buffers hold (no NUL at all, NULs at either end or
    inside). *)
Theorem decode_encode (P : platform) (m : santa_message_t) :
  valid_message P m ->
  exists bs, encode P m = Ok bs /\ length bs = wire_size P /\ decode P bs = Ok m.
Proof.
  intros [Hact Hty]. exists (struct_image P m).
  assert (Hlen : length (path m) = MAXPATHLEN P /\ length (newpath m) = MAXPATHLEN P).
  { unfold well_typed_message in Hty. simpl in Hty.
    do 6 (apply Forall2_cons in Hty as [_ Hty]).
    apply Forall2_cons in Hty as [Hp Hty]. apply Forall2_cons in Hty as [Hnp _].
    now split. }
  destruct Hlen as [Hp Hnp]. repeat split.
  - unfold encode. rewrite Hp, Hnp, Nat.ltb_irrefl. reflexivity.
  - apply length_struct_image.
  - unfold decode. rewrite length_struct_image, Nat.eqb_refl.
    rewrite struct_read_image by assumption. now rewrite Hact.
Qed.

(** C5 at a record with a path that fills its buffer and a path with NULs
    at both ends of its buffer. *)
Lemma decode_encode_witness :
  valid_message darwin sample_request
  /\ exists bs, encode darwin sample_request = Ok bs
               /\ length bs = wire_size darwin
               /\ decode darwin bs = Ok sample_request.
Proof.
  split; [exact sample_request_valid |].
  apply (decode_encode darwin sample_request). exact sample_request_valid.
Defined.

(** C8: [decode] fails with [MalformedMessage] on every input whose length
    is not the fixed record size, and succeeds only on inputs of exactly
    that size. *)
Theorem decode_wrong_length (P : platform) (bs : list byte) :
  (length bs <> wire_size P -> decode P bs = Err MalformedMessage)
  /\ (forall m, decode P bs = Ok m -> length bs = wire_size P).
Proof.
  unfold decode. destruct (Nat.eqb_spec (length bs) (wire_size P)) as [Heq | Hne].
  - split; [contradiction | intros; assumption].
  - split; [reflexivity | discriminate].
Qed.

(** C8 at the empty input and at a record with one byte too many. *)
Lemma decode_wrong_length_witness :
  decode darwin [] = Err MalformedMessage
  /\ decode darwin (struct_image darwin sample_request ++ [Byte.x00])
     = Err MalformedMessage
  /\ length (struct_image darwin sample_request) = wire_size darwin.
Proof.
  split; [| split].
  - apply (decode_wrong_length darwin []). vm_compute. discriminate.
  - apply (decode_wrong_length darwin). rewrite length_app, length_struct_image.
    cbn [length]. lia.
  - apply (proj2 (decode_wrong_length darwin (struct_image darwin sample_request))
             sample_request).
    vm_compute. reflexivity.
Defined.

(** C7: a record whose action tag is outside the enumerated set is
    rejected with [UnknownAction] by [decode], and a message carrying such
    a tag fails its session to the fail-safe verdict at dispatch, leaving
    the cache and the pending requests as they were; it is neither ignored
    nor allowed by default. *)
Theorem unknown_action_rejected (P : platform) (fail_safe : Session.verdict) (t : Z) :
  t ∉ santa_action_values ->
  (forall bs m, length bs = wire_size P -> struct_read P bs = Some m ->
     action m = t -> decode P bs = Err UnknownAction)
  /\ (forall m, action m = t -> well_typed_message P m ->
        exists bs, encode P m = Ok bs /\ decode P bs = Err UnknownAction)
  /\ (forall c m st, action m = t ->
        Session.dispatch fail_safe c m st
        = (st, Session.SessionFailed (Some UnknownAction) fail_safe)).
Proof.
  intros Ht. split; [| split].
  - intros bs m Hlen Hread Hact. unfold decode.
    rewrite Hlen, Nat.eqb_refl, Hread, Hact.
    now rewrite is_santa_action_false.
  - intros m Hact Hty. exists (struct_image P m).
    assert (Hlen : length (path m) = MAXPATHLEN P /\ length (newpath m) = MAXPATHLEN P).
    { unfold well_typed_message in Hty. simpl in Hty.
      do 6 (apply Forall2_cons in Hty as [_ Hty]).
      apply Forall2_cons in Hty as [Hp Hty]. apply Forall2_cons in Hty as [Hnp _].
      now split. }
    destruct Hlen as [Hp Hnp]. split.
    + unfold encode. rewrite Hp, Hnp, Nat.ltb_irrefl. reflexivity.
    + unfold decode. rewrite length_struct_image, Nat.eqb_refl.
      rewrite struct_read_image by assumption. rewrite Hact.
      now rewrite is_santa_action_false.
  - intros c m st Hact. unfold Session.dispatch, action_family_of.
    rewrite Hact, family_lookup_None; [reflexivity | exact Ht].
Qed.

(** C7 at the tag 13, which lies between the response tags and the
    notify tags. *)
Lemma unknown_action_rejected_witness :
  (13 ∉ santa_action_values)
  /\ decode darwin (struct_image darwin sample_unknown) = Err UnknownAction
  /\ Session.dispatch Session.Deny 1%nat sample_unknown sample_state
     = (sample_state, Session.SessionFailed (Some UnknownAction) Session.Deny).
Proof.
  assert (H13 : 13 ∉ santa_action_values).
  { intros H. apply is_santa_action_elem_of in H. discriminate H. }
  split; [exact H13 |].
  destruct (unknown_action_rejected darwin Session.Deny 13 H13) as (Hdec & _ & Hdisp).
  split.
  - apply (Hdec _ sample_unknown).
    + apply length_struct_image.
    + apply struct_read_image. exact sample_unknown_well_typed.
    + reflexivity.
  - apply Hdisp. reflexivity.
Defined.

(** C9: the twelve enumerator values are pairwise distinct, so a tag has
    at most one family and classification is a function; [ACTION_UNSET]
    is 0, the tag an all-zero record holds. *)
Theorem santa_action_values_distinct :
  NoDup santa_action_values
  /\ length santa_action_values = 12%nat
  /\ map snd (CEnum.values santa_action_t_decl) = santa_action_values
  /\ (forall v f g, (v, f) ∈ santa_action_table -> (v, g) ∈ santa_action_table -> f = g)
  /\ (forall v f, action_family_of v = Some f <-> (v, f) ∈ santa_action_table)
  /\ ACTION_UNSET = 0
  /\ action_family_of ACTION_UNSET = Some FAMILY_UNSET
  /\ (forall P : platform,
        option_map action (struct_read P (zero_image P)) = Some ACTION_UNSET).
Proof.
  pose proof santa_action_values_NoDup as Hnd.
  assert (Hfun : forall v f, action_family_of v = Some f <-> (v, f) ∈ santa_action_table).
  { intros v f. split.
    - apply family_lookup_elem_of.
    - apply family_lookup_NoDup. exact Hnd. }
  repeat split; try reflexivity; try apply Hfun; try exact Hnd.
  - intros v f g Hf Hg. apply Hfun in Hf, Hg. congruence.
Qed.

(** ** The authorization session *)

Lemma isValidResponse_CHECKBW (x : Z) :
  isValidResponse ACTION_REQUEST_CHECKBW x = CHECKBW_RESPONSE_VALID x.
Proof. reflexivity. Qed.

Example isValidResponse_examples :
  isValidResponse ACTION_REQUEST_CHECKBW ACTION_RESPOND_CHECKBW_ALLOW = true
  /\ isValidResponse ACTION_REQUEST_CHECKBW ACTION_NOTIFY_EXEC = false.
Proof. split; reflexivity. Qed.

Section SessionFacts.

Import Session.

Lemma response_verdict_allow : response_verdict ACTION_RESPOND_CHECKBW_ALLOW = Some Allow.
Proof. reflexivity. Qed.

Lemma response_verdict_deny : response_verdict ACTION_RESPOND_CHECKBW_DENY = Some Deny.
Proof. reflexivity. Qed.

(** A response message reaches [deliver_response] with its own identity. *)
Lemma dispatch_response (fail_safe : verdict) (c : caller) (m : santa_message_t) (st : state) :
  CHECKBW_RESPONSE_VALID (action m) = true ->
  dispatch fail_safe c m st = deliver_response (vnode_id m) (action m) st.
Proof.
  intros Hv. apply CHECKBW_RESPONSE_VALID_iff in Hv.
  unfold dispatch. destruct Hv as [-> | ->]; reflexivity.
Qed.

(** A matching response resolves its own request. *)
Lemma deliver_response_matching (J a : Z) (ws : list caller) (v : verdict) (st : state) :
  pending st !! J = Some ws -> response_verdict a = Some v ->
  deliver_response J a st
  = ({| cache := <[J := v]> (cache st); pending := delete J (pending st) |},
     Resolved J ws v)
  /\ lookup J (deliver_response J a st).1 = Some v
  /\ pending (deliver_response J a st).1 !! J = None.
Proof.
  intros HJ Hv. unfold deliver_response, lookup. rewrite HJ, Hv. simpl.
  split; [reflexivity |]. split; [apply lookup_insert_eq | apply lookup_delete_eq].
Qed.

(** The cache behaves as a table: a recorded verdict is read back,
    [invalidate] and [clear] return an identity to unknown. *)
Lemma lookup_recordVerdict (ident : Z) (v : verdict) (st : state) :
  lookup ident (recordVerdict ident v st) = Some v.
Proof. apply lookup_insert_eq. Qed.

Lemma lookup_invalidate (ident : Z) (st : state) :
  lookup ident (invalidate ident st) = None.
Proof. apply lookup_delete_eq. Qed.

Lemma lookup_clear (ident : Z) (st : state) :
  lookup ident (clear st) = None /\ count (clear st) = 0%nat.
Proof. split; [apply lookup_empty | apply map_size_empty]. Qed.

(** An error signal fails the session the way an unknown tag does. *)
Lemma dispatch_ACTION_ERROR (fail_safe : verdict) (c : caller) (m : santa_message_t) (st : state) :
  action m = ACTION_ERROR ->
  dispatch fail_safe c m st = (st, SessionFailed None fail_safe).
Proof. intros Hact. unfold dispatch. now rewrite Hact. Qed.

(** What [deliver_response J] leaves untouched at any other identity. *)
Lemma deliver_response_other (ident J a : Z) (st : state) :
  J <> ident ->
  pending (deliver_response J a st).1 !! ident = pending st !! ident
  /\ cache (deliver_response J a st).1 !! ident = cache st !! ident
  /\ forall ws, (ident, ws) ∉ resumed (deliver_response J a st).2.
Proof.
  intros Hne. unfold deliver_response.
  destruct (pending st !! J) as [wsJ |]; [destruct (response_verdict a) as [v |] |];
    simpl; repeat split; try (intros ws Hin; inversion Hin; fail).
  - now apply lookup_delete_ne.
  - now apply lookup_insert_ne.
  - intros ws Hin. apply list_elem_of_singleton in Hin. congruence.
Qed.

End SessionFacts.

(** C6: while a request for identity [ident] is pending, a response for a
    different identity [J], whatever action it carries, leaves the request
    for [ident] pending with the same callers, records no verdict for
    [ident] and resumes none of its callers; and a response that matches
    no pending request changes nothing and resumes no caller. *)
Theorem response_for_other_identity :
  (forall (st : Session.state) (ident J a : Z) (ws : list Session.caller),
      Session.pending st !! ident = Some ws -> J <> ident ->
      Session.pending (Session.deliver_response J a st).1 !! ident = Some ws
      /\ Session.cache (Session.deliver_response J a st).1 !! ident
         = Session.cache st !! ident
      /\ (forall ws', (ident, ws') ∉ Session.resumed (Session.deliver_response J a st).2))
  /\ (forall (st : Session.state) (J a : Z),
        Session.pending st !! J = None ->
        Session.deliver_response J a st = (st, Session.Ignored ProtocolViolation)
        /\ Session.resumed (Session.deliver_response J a st).2 = [])
  /\ (forall (fail_safe : Session.verdict) (c : Session.caller)
             (m : santa_message_t) (st : Session.state),
        action m = ACTION_RESPOND_CHECKBW_ALLOW ->
        Session.dispatch fail_safe c m st
        = Session.deliver_response (vnode_id m) ACTION_RESPOND_CHECKBW_ALLOW st).
Proof.
  split; [| split].
  - intros st ident J a ws Hpend Hne.
    destruct (deliver_response_other ident J a st Hne) as (Hp & Hc & Hr).
    rewrite Hp. auto.
  - intros st J a HJ. unfold Session.deliver_response. rewrite HJ. split; reflexivity.
  - intros fail_safe c m st Hact. rewrite dispatch_response; rewrite Hact; reflexivity.
Qed.

(** C6 at a state where identity 5 is pending and response(7, allow)
    arrives: 5 stays pending, the response is ignored; response(5, allow)
    does resolve it. *)
Lemma response_for_other_identity_witness :
  Session.pending sample_state !! 5 = Some [1%nat]
  /\ Session.pending (Session.deliver_response 7 ACTION_RESPOND_CHECKBW_ALLOW sample_state).1
       !! 5 = Some [1%nat]
  /\ Session.deliver_response 7 ACTION_RESPOND_CHECKBW_ALLOW sample_state
     = (sample_state, Session.Ignored ProtocolViolation)
  /\ Session.resumed (Session.deliver_response 5 ACTION_RESPOND_CHECKBW_ALLOW sample_state).2
     = [(5, [1%nat])].
Proof.
  assert (H5 : Session.pending sample_state !! 5 = Some [1%nat]) by reflexivity.
  assert (H7 : Session.pending sample_state !! 7 = None) by reflexivity.
  destruct response_for_other_identity as (Hother & Hstray & _).
  split; [exact H5 |]. split; [| split].
  - apply (Hother sample_state 5 7 _ _ H5). discriminate.
  - apply (Hstray sample_state 7 _ H7).
  - reflexivity.
Defined.

(* ===================================================================== *)
(** * Part III: further properties of the header                         *)
(* ===================================================================== *)

(** ** Method ids *)



Lemma SantaDriverMethods_above_nil : SantaDriverMethods_above [] = SantaDriverMethods.
Proof. reflexivity. Qed.



(** X2: a method added below the closing line is not counted:
    [kSantaUserClientNMethods] stays 5, and the new method gets id 6,
    which a bound check against [kSantaUserClientNMethods] turns away. *)
Theorem SantaDriverMethods_below_line (added : string) :
  added ∉ SantaDriverMethods_names ++ [NMethods_name] ->
  CEnum.constant (SantaDriverMethods_below added) NMethods_name = kSantaUserClientNMethods
  /\ CEnum.constant (SantaDriverMethods_below added) added = 6
  /\ ~ (CEnum.constant (SantaDriverMethods_below added) added
        < CEnum.constant (SantaDriverMethods_below added) NMethods_name).
Proof.
  intros Hnew.
  assert (H6 : CEnum.constant (SantaDriverMethods_below added) added = 6).
  { unfold CEnum.constant, CEnum.values, SantaDriverMethods_below, SantaDriverMethods.
    cbn [app CEnum.assign CEnum.find].
    repeat match goal with
           | |- context [String.eqb ?a added] =>
               destruct (String.eqb_spec a added) as [<- | _];
               [exfalso; apply Hnew; vm_compute; set_solver |]
           end.
    rewrite String.eqb_refl. reflexivity. }
  split; [reflexivity |]. split; [exact H6 |].
  rewrite H6. change (CEnum.constant (SantaDriverMethods_below added) NMethods_name) with 5.
  lia.
Qed.

Lemma SantaDriverMethods_below_line_witness :
  ("kSantaUserClientPing"%string ∉ SantaDriverMethods_names ++ [NMethods_name])
  /\ CEnum.constant (SantaDriverMethods_below "kSantaUserClientPing") NMethods_name = 5
  /\ CEnum.constant (SantaDriverMethods_below "kSantaUserClientPing")
       "kSantaUserClientPing" = 6.
Proof.
  assert (Hnew : "kSantaUserClientPing"%string ∉ SantaDriverMethods_names ++ [NMethods_name]).
  { apply (bool_decide_unpack _). vm_compute. exact I. }
  split; [exact Hnew |].
  destruct (SantaDriverMethods_below_line _ Hnew) as (Hn & H6 & _).
  split; [exact Hn | exact H6].
Defined.

(** X3: the method ids are exactly the selectors below
    [kSantaUserClientNMethods]: a selector [s] names a method if and only
    if [0 <= s < kSantaUserClientNMethods], and different methods have
    different ids. *)
Theorem method_id_selectors :
  (forall s : Z, (exists op, method_id op = s) <-> 0 <= s < kSantaUserClientNMethods)
  /\ (forall op1 op2, method_id op1 = method_id op2 -> op1 = op2)
  /\ (forall op, In op control_ops).
Proof.
  change kSantaUserClientNMethods with 5. split; [| split].
  - intros s. split.
    + intros [op <-]. destruct op; vm_compute; split; congruence.
    + intros Hs.
      assert (Hcases : s = 0 \/ s = 1 \/ s = 2 \/ s = 3 \/ s = 4) by lia.
      destruct Hcases as [-> | [-> | [-> | [-> | ->]]]];
        [exists OpOpen | exists OpAllowBinary | exists OpDenyBinary
        | exists OpClearCache | exists OpCacheCount]; reflexivity.
  - intros op1 op2. destruct op1, op2; vm_compute; congruence.
  - intros op. destruct op; simpl; tauto.
Qed.

(** ** Action families *)

(** X4: the tags of a family are a contiguous run, so a range check
    classifies a tag: the request/response family is 10..12, the notify
    family 20..25, and every other integer except 0, 90 and 99 is no
    action at all. *)
Theorem action_family_ranges (x : Z) :
  (action_family_of x = Some FAMILY_CHECKBW <-> 10 <= x <= 12)
  /\ (action_family_of x = Some FAMILY_NOTIFY <-> 20 <= x <= 25)
  /\ (action_family_of x = Some FAMILY_UNSET <-> x = 0)
  /\ (action_family_of x = Some FAMILY_SHUTDOWN <-> x = 90)
  /\ (action_family_of x = Some FAMILY_ERROR <-> x = 99)
  /\ (action_family_of x = None <->
        x < 0 \/ 0 < x < 10 \/ 12 < x < 20 \/ 25 < x < 90 \/ 90 < x < 99 \/ 99 < x)
  /\ (is_santa_action x = true <-> action_family_of x <> None).
Proof.
  unfold is_santa_action, action_family_of, santa_action_values, santa_action_table.
  cbn [map fst existsb family_lookup].
  unfold ACTION_UNSET, ACTION_REQUEST_CHECKBW, ACTION_RESPOND_CHECKBW_ALLOW,
    ACTION_RESPOND_CHECKBW_DENY, ACTION_NOTIFY_EXEC, ACTION_NOTIFY_WRITE,
    ACTION_NOTIFY_RENAME, ACTION_NOTIFY_LINK, ACTION_NOTIFY_EXCHANGE,
    ACTION_NOTIFY_DELETE, ACTION_REQUEST_SHUTDOWN, ACTION_ERROR.
  repeat match goal with
         | |- context [x =? ?v] => destruct (Z.eqb_spec x v) as [-> | ?]
         end;
    cbn [orb]; repeat split; intros; try lia; try congruence; try discriminate.
Qed.

(** ** Layout of the message struct *)

Lemma padding_lt (off a : nat) : (0 < a)%nat -> (padding off a < a)%nat.
Proof. intros Ha. unfold padding. apply Nat.mod_upper_bound. lia. Qed.

Lemma padding_aligned (off a : nat) :
  (0 < a)%nat -> ((off + padding off a) mod a = 0)%nat.
Proof.
  intros Ha. unfold padding.
  pose proof (Nat.mod_upper_bound off a ltac:(lia)) as Hr.
  pose proof (Nat.div_mod_eq off a) as Hoff.
  destruct (Nat.eq_dec (off mod a)%nat 0%nat) as [H0 | Hnz].
  - rewrite H0, Nat.sub_0_r, Nat.Div0.mod_same, Nat.add_0_r. exact H0.
  - rewrite (Nat.mod_small (a - off mod a)%nat a) by lia.
    replace (off + (a - off mod a))%nat with ((S (off / a)) * a)%nat by nia.
    apply Nat.Div0.mod_mul.
Qed.

Lemma padding_1 (off : nat) : padding off 1 = 0%nat.
Proof. unfold padding. apply Nat.mod_1_r. Qed.

Lemma end_offset_start (fs : members) (off : nat) : (off <= end_offset off fs)%nat.
Proof. pose proof (end_offset_ge fs off). lia. Qed.

Lemma member_offsets_aligned (fs : members) (off : nat) :
  Forall (fun f => (0 < alignof (snd f))%nat) fs ->
  Forall2 (fun o f => (o mod alignof (snd f))%nat = 0%nat) (member_offsets off fs) fs.
Proof.
  revert off. induction fs as [| [name t] fs IH]; intros off Hpos; simpl.
  - constructor.
  - apply Forall_cons in Hpos as [Ht Hpos]. constructor.
    + now apply padding_aligned.
    + now apply IH.
Qed.

Lemma member_offsets_bounds (fs : members) (off i o : nat) (f : string * ctype) :
  member_offsets off fs !! i = Some o -> fs !! i = Some f ->
  (off <= o /\ o + sizeof (snd f) <= end_offset off fs)%nat.
Proof.
  revert off i. induction fs as [| [name t] fs IH]; intros off i Ho Hf;
    [discriminate |].
  destruct i as [| i]; simpl in Ho, Hf.
  - injection Ho as <-. injection Hf as <-. simpl.
    pose proof (end_offset_start fs (off + padding off (alignof t) + sizeof t)). lia.
  - destruct (IH _ _ Ho Hf) as [Hlo Hhi]. simpl. lia.
Qed.

Lemma member_offsets_disjoint (fs : members) (off i j oi oj : nat) (fi fj : string * ctype) :
  (i < j)%nat ->
  member_offsets off fs !! i = Some oi -> fs !! i = Some fi ->
  member_offsets off fs !! j = Some oj -> fs !! j = Some fj ->
  (oi + sizeof (snd fi) <= oj)%nat.
Proof.
  revert off i j. induction fs as [| [name t] fs IH]; intros off i j Hij Hoi Hfi Hoj Hfj;
    [discriminate |].
  destruct j as [| j]; [lia |]. simpl in Hoj, Hfj.
  destruct i as [| i]; simpl in Hoi, Hfi.
  - injection Hoi as <-. injection Hfi as <-. simpl.
    destruct (member_offsets_bounds _ _ _ _ _ Hoj Hfj) as [Hlo _]. lia.
  - eapply (IH _ i j); [lia | eassumption..].
Qed.

(** X5: on every platform with ids of positive width, each member of the
    message struct starts at a multiple of its alignment, members do not
    overlap (each ends before the next one starts), all of them lie
    inside the record, and the record size is the least multiple of the
    struct alignment that holds them. *)
Theorem santa_message_t_members_placed (P : platform) :
  (0 < uid_t_bytes P)%nat -> (0 < gid_t_bytes P)%nat -> (0 < pid_t_bytes P)%nat ->
  Forall2 (fun o f => (o mod alignof (snd f))%nat = 0%nat)
    (member_offsets 0 (santa_message_members P)) (santa_message_members P)
  /\ (forall i j oi oj fi fj, (i < j)%nat ->
        member_offsets 0 (santa_message_members P) !! i = Some oi ->
        santa_message_members P !! i = Some fi ->
        member_offsets 0 (santa_message_members P) !! j = Some oj ->
        santa_message_members P !! j = Some fj ->
        (oi + sizeof (snd fi) <= oj)%nat)
  /\ (forall i o f,
        member_offsets 0 (santa_message_members P) !! i = Some o ->
        santa_message_members P !! i = Some f ->
        (o + sizeof (snd f) <= wire_size P)%nat)
  /\ (wire_size P mod struct_align (santa_message_members P))%nat = 0%nat
  /\ (wire_size P < end_offset 0 (santa_message_members P)
                    + struct_align (santa_message_members P))%nat.
Proof.
  intros Hu Hg Hp.
  assert (Hal : (0 < struct_align (santa_message_members P))%nat).
  { unfold struct_align. simpl. lia. }
  split; [| split; [| split; [| split]]].
  - apply member_offsets_aligned. unfold santa_message_members.
    repeat (apply Forall_cons; split; [simpl; lia |]). constructor.
  - intros i j oi oj fi fj. apply member_offsets_disjoint.
  - intros i o f Ho Hf.
    destruct (member_offsets_bounds _ _ _ _ _ Ho Hf) as [_ Hhi].
    unfold wire_size, struct_size. lia.
  - unfold wire_size, struct_size, tail_padding. now apply padding_aligned.
  - unfold wire_size, struct_size, tail_padding.
    pose proof (padding_lt (end_offset 0 (santa_message_members P)) _ Hal). lia.
Qed.

Lemma santa_message_t_members_placed_witness :
  (0 < uid_t_bytes darwin)%nat /\ (0 < gid_t_bytes darwin)%nat
  /\ (0 < pid_t_bytes darwin)%nat
  /\ Forall2 (fun o f => (o mod alignof (snd f))%nat = 0%nat)
       (member_offsets 0 (santa_message_members darwin)) (santa_message_members darwin)
  /\ (wire_size darwin mod struct_align (santa_message_members darwin))%nat = 0%nat.
Proof.
  assert (H4 : (0 < 4)%nat) by lia.
  split; [exact H4 |]. split; [exact H4 |]. split; [exact H4 |].
  destruct (santa_message_t_members_placed darwin H4 H4 H4) as (Hal & _ & _ & Hsz & _).
  split; [exact Hal | exact Hsz].
Defined.

(** X6: with 32-bit ids the record size is 32 + 2 * MAXPATHLEN rounded up
    to a multiple of 8: the six integers and the hole after the action
    tag take 32 bytes, the two paths the rest; when [MAXPATHLEN] is a
    multiple of 4 nothing is added at the end. *)
Theorem wire_size_ids32 (maxpathlen : nat) :
  wire_size (ids32 maxpathlen)
  = (32 + 2 * maxpathlen + padding (32 + 2 * maxpathlen) 8)%nat
  /\ (wire_size (ids32 maxpathlen) mod 8)%nat = 0%nat
  /\ (wire_size (ids32 maxpathlen) < 32 + 2 * maxpathlen + 8)%nat
  /\ ((maxpathlen mod 4)%nat = 0%nat ->
      wire_size (ids32 maxpathlen) = (32 + 2 * maxpathlen)%nat).
Proof.
  assert (Hsize : wire_size (ids32 maxpathlen)
                  = (32 + 2 * maxpathlen + padding (32 + 2 * maxpathlen) 8)%nat).
  { unfold wire_size, struct_size, tail_padding.
    assert (Hend : end_offset 0 (santa_message_members (ids32 maxpathlen))
                   = (32 + 2 * maxpathlen)%nat).
    { cbn [santa_message_members end_offset ids32 uid_t gid_t pid_t uint64_t
           santa_action_ctype alignof sizeof uid_t_bytes gid_t_bytes pid_t_bytes
           MAXPATHLEN].
      rewrite !padding_1.
      change (padding 0 4) with 0%nat. change (0 + 0 + 4)%nat with 4%nat.
      change (padding 4 8) with 4%nat. change (4 + 4 + 8)%nat with 16%nat.
      change (padding 16 4) with 0%nat. change (16 + 0 + 4)%nat with 20%nat.
      change (padding 20 4) with 0%nat. change (20 + 0 + 4)%nat with 24%nat.
      change (padding 24 4) with 0%nat. change (24 + 0 + 4)%nat with 28%nat.
      change (padding 28 4) with 0%nat. change (28 + 0 + 4)%nat with 32%nat.
      lia. }
    rewrite Hend. reflexivity. }
  rewrite Hsize. split; [reflexivity |]. split; [| split].
  - apply padding_aligned. lia.
  - pose proof (padding_lt (32 + 2 * maxpathlen) 8 ltac:(lia)). lia.
  - intros H4. enough (padding (32 + 2 * maxpathlen) 8 = 0%nat) as -> by lia.
    unfold padding.
    assert (Hmod : ((32 + 2 * maxpathlen) mod 8 = 0)%nat).
    { pose proof (Nat.div_mod_eq maxpathlen 4) as Hdm. rewrite H4 in Hdm.
      replace (32 + 2 * maxpathlen)%nat with ((4 + maxpathlen / 4) * 8)%nat by lia.
      apply Nat.Div0.mod_mul. }
    rewrite Hmod, Nat.sub_0_r. apply Nat.Div0.mod_same.
Qed.

Lemma wire_size_ids32_witness :
  (1024 mod 4)%nat = 0%nat /\ wire_size (ids32 1024) = 2080%nat.
Proof.
  assert (H : (1024 mod 4)%nat = 0%nat) by reflexivity.
  split; [exact H |].
  exact (proj2 (proj2 (proj2 (wire_size_ids32 1024))) H).
Defined.

(** ** Reading a record *)







Example struct_read_all_ff :
  option_map (fun m => (action m, vnode_id m, uid m, pid m))
    (struct_read darwin (repeat Byte.xff 2080))
  = Some (-1, UINT64_MAX, 4294967295, -1).
Proof. vm_compute. reflexivity. Qed.




(** ** The vnode-id string, digit by digit *)

Lemma utoa_go_length_ge (fuel k : nat) (v : Z) (acc : list byte) :
  0 <= v < 2 ^ Z.of_nat fuel -> 10 ^ Z.of_nat k <= v ->
  (k + 1 + length acc <= length (utoa_go fuel v acc))%nat.
Proof.
  revert k v acc. induction fuel as [| fuel IH]; intros k v acc Hv Hk.
  - exfalso. assert (0 < 10 ^ Z.of_nat k) by (apply Z.pow_pos_nonneg; lia).
    simpl in Hv. lia.
  - cbn [utoa_go].
    assert (Hq : 0 <= v / 10 < 2 ^ Z.of_nat fuel).
    { split; [apply Z.div_pos; lia |].
      apply Z.div_lt_upper_bound; [lia |].
      replace (Z.of_nat (S fuel)) with (Z.succ (Z.of_nat fuel)) in Hv by lia.
      rewrite Z.pow_succ_r in Hv by lia. lia. }
    destruct (Z.eqb_spec (v / 10) 0) as [Hz | Hnz].
    + assert (Hlt : v < 10).
      { pose proof (Z.div_mod v 10 ltac:(lia)).
        pose proof (Z.mod_pos_bound v 10 ltac:(lia)). lia. }
      destruct k as [| k]; [simpl; lia |]. exfalso.
      replace (Z.of_nat (S k)) with (Z.succ (Z.of_nat k)) in Hk by lia.
      rewrite Z.pow_succ_r in Hk by lia.
      assert (0 < 10 ^ Z.of_nat k) by (apply Z.pow_pos_nonneg; lia). lia.
    + destruct k as [| k].
      * specialize (IH 0%nat (v / 10) (digit_char (v mod 10) :: acc) Hq).
        simpl in IH. simpl. assert (1 <= v / 10) by lia. lia.
      * assert (Hk' : 10 ^ Z.of_nat k <= v / 10).
        { apply Z.div_le_lower_bound; [lia |].
          replace (Z.of_nat (S k)) with (Z.succ (Z.of_nat k)) in Hk by lia.
          rewrite Z.pow_succ_r in Hk by lia. lia. }
        specialize (IH k (v / 10) (digit_char (v mod 10) :: acc) Hq Hk').
        simpl in IH. simpl. lia.
Qed.

Lemma decimal_fuel (v : Z) :
  0 <= v -> 0 <= v < 2 ^ Z.of_nat (S (Z.to_nat (Z.log2 v))).
Proof.
  intros Hv. split; [assumption |].
  destruct (Z.eq_dec v 0) as [-> | Hnz]; [reflexivity |].
  rewrite Nat2Z.inj_succ, Z2Nat.id by apply Z.log2_nonneg.
  apply Z.log2_spec. lia.
Qed.

(** X9: the decimal string of [v] has exactly [k + 1] digits when
    [10 ^ k <= v < 10 ^ (k + 1)].  So every vnode id from [10 ^ 19] up to
    [UINT64_MAX] needs all [MAX_VNODE_ID_STR] bytes, terminator included:
    no smaller buffer holds them. *)
Theorem decimal_length (v : Z) (k : nat) :
  10 ^ Z.of_nat k <= v < 10 ^ Z.of_nat (S k) ->
  length (decimal v) = S k
  /\ Z.of_nat (length (vnode_id_str v)) = Z.of_nat k + 2
  /\ (k = 19%nat -> Z.of_nat (length (vnode_id_str v)) = MAX_VNODE_ID_STR).
Proof.
  intros [Hlo Hhi].
  assert (Hpos : 0 < 10 ^ Z.of_nat k) by (apply Z.pow_pos_nonneg; lia).
  assert (Hlen : length (decimal v) = S k).
  { unfold decimal. apply Nat.le_antisymm.
    - pose proof (utoa_go_length (S (Z.to_nat (Z.log2 v))) (S k) v []) as Hle.
      simpl length in Hle. rewrite Nat.add_0_r in Hle. apply Hle; lia.
    - pose proof (utoa_go_length_ge (S (Z.to_nat (Z.log2 v))) k v []) as Hge.
      simpl length in Hge. rewrite Nat.add_0_r in Hge.
      rewrite Nat.add_1_r in Hge. apply Hge; [apply decimal_fuel; lia | exact Hlo]. }
  split; [exact Hlen |].
  assert (Hstr : Z.of_nat (length (vnode_id_str v)) = Z.of_nat k + 2).
  { unfold vnode_id_str. rewrite length_app, Hlen. simpl. lia. }
  split; [exact Hstr |].
  intros ->. rewrite Hstr. reflexivity.
Qed.

(** X9 at [10 ^ 19], the least id that fills the buffer. *)
Lemma decimal_length_witness :
  10 ^ Z.of_nat 19 <= 10000000000000000000 < 10 ^ Z.of_nat 20
  /\ length (decimal 10000000000000000000) = 20%nat
  /\ Z.of_nat (length (vnode_id_str 10000000000000000000)) = MAX_VNODE_ID_STR.
Proof.
  assert (H : 10 ^ Z.of_nat 19 <= 10000000000000000000 < 10 ^ Z.of_nat 20)
    by (vm_compute; split; congruence).
  split; [exact H |].
  destruct (decimal_length 10000000000000000000 19 H) as (Hlen & _ & Hmax).
  split; [exact Hlen | exact (Hmax eq_refl)].
Defined.

Lemma digit_char_is_digit (d : Z) : 0 <= d < 10 -> is_decimal_digit (digit_char d).
Proof.
  intros Hd. unfold is_decimal_digit. pose proof (digit_char_value d Hd). lia.
Qed.

Lemma utoa_go_digits (fuel : nat) (v : Z) (acc : list byte) :
  Forall is_decimal_digit acc -> Forall is_decimal_digit (utoa_go fuel v acc).
Proof.
  revert v acc. induction fuel as [| fuel IH]; intros v acc Hacc; simpl; [exact Hacc |].
  assert (Hd : is_decimal_digit (digit_char (v mod 10))).
  { apply digit_char_is_digit. apply Z.mod_pos_bound. lia. }
  destruct (v / 10 =? 0); [| apply IH]; now constructor.
Qed.

(** The first digit of a positive number is not ['0']. *)
Lemma utoa_go_leading (fuel : nat) (v : Z) (acc : list byte) :
  0 < v < 2 ^ Z.of_nat fuel ->
  exists d rest, utoa_go fuel v acc = digit_char d :: rest /\ 1 <= d <= 9.
Proof.
  revert v acc. induction fuel as [| fuel IH]; intros v acc Hv.
  - simpl in Hv. lia.
  - cbn [utoa_go].
    pose proof (Z.div_mod v 10 ltac:(lia)) as Hdm.
    pose proof (Z.mod_pos_bound v 10 ltac:(lia)) as Hm.
    destruct (Z.eqb_spec (v / 10) 0) as [Hz | Hnz].
    + exists (v mod 10), acc. split; [reflexivity | lia].
    + apply IH. split.
      * assert (0 <= v / 10) by (apply Z.div_pos; lia). lia.
      * apply Z.div_lt_upper_bound; [lia |].
        replace (Z.of_nat (S fuel)) with (Z.succ (Z.of_nat fuel)) in Hv by lia.
        rewrite Z.pow_succ_r in Hv by lia. lia.
Qed.

(** X10: the string of a vnode id is a proper C string and a faithful
    key: it consists of ASCII digits only, so its terminator is its only
    NUL; it has no leading ['0'] unless the id is 0; and two ids with the
    same string are the same id. *)
Theorem vnode_id_str_faithful (v w : Z) :
  0 <= v -> 0 <= w ->
  Forall is_decimal_digit (decimal v)
  /\ (Byte.x00 ∉ decimal v)
  /\ last (vnode_id_str v) = Some Byte.x00
  /\ (0 < v -> exists d rest, decimal v = digit_char d :: rest /\ 1 <= d <= 9)
  /\ decimal 0 = [digit_char 0]
  /\ (vnode_id_str v = vnode_id_str w -> v = w).
Proof.
  intros Hv Hw.
  assert (Hdig : Forall is_decimal_digit (decimal v)).
  { unfold decimal. apply utoa_go_digits. constructor. }
  split; [exact Hdig |]. split; [| split; [| split; [| split]]].
  - intros Hin. rewrite Forall_forall in Hdig. specialize (Hdig _ Hin).
    unfold is_decimal_digit in Hdig.
    change (byte.unsigned Byte.x00) with 0 in Hdig. lia.
  - unfold vnode_id_str. apply last_snoc.
  - intros Hpos. unfold decimal. apply utoa_go_leading.
    pose proof (decimal_fuel v Hv). lia.
  - reflexivity.
  - unfold vnode_id_str. intros Heq. apply app_inj_tail in Heq as [Heq _].
    rewrite <- (decimal_value_decimal v Hv), <- (decimal_value_decimal w Hw).
    now rewrite Heq.
Qed.

(** X10 at the ids 4242 and 42420, whose strings differ by one digit. *)
Lemma vnode_id_str_faithful_witness :
  0 <= 4242 /\ 0 <= 42420
  /\ Forall is_decimal_digit (decimal 4242)
  /\ (Byte.x00 ∉ decimal 4242)
  /\ vnode_id_str 4242 = [Byte.x34; Byte.x32; Byte.x34; Byte.x32; Byte.x00]
  /\ vnode_id_str 4242 <> vnode_id_str 42420.
Proof.
  assert (Hv : 0 <= 4242) by lia. assert (Hw : 0 <= 42420) by lia.
  destruct (vnode_id_str_faithful 4242 42420 Hv Hw) as (Hdig & Hnul & _ & _ & _ & Hinj).
  split; [exact Hv |]. split; [exact Hw |]. split; [exact Hdig |].
  split; [exact Hnul |]. split; [reflexivity |].
  intros Heq. apply Hinj in Heq. discriminate Heq.
Defined.
